(** * LLPC front-end lowering utilities (llpcSpirvLowerUtil.cpp)

    A shallow embedding of the four routines of the file

      - [getEntryPoint]
      - [getShaderStageFromModule]
      - [setShaderStageToModule]
      - [appendZeroIndexToMatchTypes]

    together with the part of the LLVM object model they touch: the
    function list of a module, linkage, metadata attachments, uniqued
    integer constants and the first-class aggregate types.

    LLVM uniques types, constants and metadata tuples inside a context,
    so pointer equality on them is equality of the described object.
    They are therefore modelled by value.  A [Function *] is the position
    of the function in the module's function list ([None] is the null
    pointer). *)

From Stdlib Require Import ZArith List Bool Lia.
From stdpp Require Import base option list gmap strings fin_maps.

Local Open Scope Z_scope.
Local Set Warnings "-register-all".

(* ===================================================================== *)
(** ** Outcomes of a call *)
(* ===================================================================== *)

(** A call either returns, or the process is terminated by a failed
    [assert] / [llvm_unreachable] ([Abort]), or it runs into behaviour
    the language leaves undefined ([Undefined]): a null dereference, or
    an [llvm_unreachable] that was compiled to an optimizer hint. *)
Inductive Result (A : Type) : Type :=
| Ret (a : A)
| Abort
| Undefined.

Arguments Ret {A} a.
Arguments Abort {A}.
Arguments Undefined {A}.

(** Computations over a mutable state [St] that may stop early; the state
    reached so far is kept in every case. *)
Definition M (St A : Type) : Type := St -> Result A * St.

Definition ret {St A} (a : A) : M St A := fun s => (Ret a, s).

Definition bind {St A B} (m : M St A) (f : A -> M St B) : M St B :=
  fun s =>
    match m s with
    | (Ret a, s') => f a s'
    | (Abort, s') => (Abort, s')
    | (Undefined, s') => (Undefined, s')
    end.

Definition abort {St A} : M St A := fun s => (Abort, s).
Definition undefined {St A} : M St A := fun s => (Undefined, s).
Definition get_state {St} : M St St := fun s => (Ret s, s).
Definition put_state {St} (s : St) : M St unit := fun _ => (Ret tt, s).

(** The computations form a monad for stdpp's notations
    [x ← m; k] and [m;; k]. *)
#[global] Instance M_ret {St} : MRet (M St) := fun A a => ret a.
#[global] Instance M_bind {St} : MBind (M St) := fun A B f m => bind m f.

(** A computation that leaves the state as it found it, whatever its
    outcome. *)
Definition readOnly {St A} (c : M St A) : Prop := forall s, snd (c s) = s.

(* ===================================================================== *)
(** ** LLVM types *)
(* ===================================================================== *)

(** [StructTy ident packed elems]: [ident] is [None] for a literal struct
    (uniqued by its layout) and [Some i] for an identified struct, [i]
    standing for its identity; an opaque struct has no elements. *)
Inductive llvmType : Type :=
| VoidTy
| LabelTy
| HalfTy
| FloatTy
| DoubleTy
| IntegerTy (bits : N)
| PointerTy (addrSpace : N)
| StructTy (ident : option N) (packed : bool) (elems : list llvmType)
| ArrayTy (elem : llvmType) (numElements : N)
| VectorTy (elem : llvmType) (minElements : N) (scalable : bool).

Definition option_N_eqb (a b : option N) : bool :=
  match a, b with
  | None, None => true
  | Some x, Some y => N.eqb x y
  | _, _ => false
  end.

(** Pointer comparison [a == b] of two [Type *] of one context. *)
Fixpoint Type_eqb (a b : llvmType) {struct a} : bool :=
  match a, b with
  | VoidTy, VoidTy => true
  | LabelTy, LabelTy => true
  | HalfTy, HalfTy => true
  | FloatTy, FloatTy => true
  | DoubleTy, DoubleTy => true
  | IntegerTy n, IntegerTy m => N.eqb n m
  | PointerTy n, PointerTy m => N.eqb n m
  | StructTy i p es, StructTy j q fs =>
      option_N_eqb i j && Bool.eqb p q &&
      (fix elems_eqb (xs ys : list llvmType) {struct xs} : bool :=
         match xs, ys with
         | [], [] => true
         | x :: xs', y :: ys' => Type_eqb x y && elems_eqb xs' ys'
         | _, _ => false
         end) es fs
  | ArrayTy e n, ArrayTy f m => Type_eqb e f && N.eqb n m
  | VectorTy e n s, VectorTy f m t => Type_eqb e f && N.eqb n m && Bool.eqb s t
  | _, _ => false
  end.

Definition isStructTy (t : llvmType) : bool :=
  match t with StructTy _ _ _ => true | _ => false end.
Definition isArrayTy (t : llvmType) : bool :=
  match t with ArrayTy _ _ => true | _ => false end.
Definition isVectorTy (t : llvmType) : bool :=
  match t with VectorTy _ _ _ => true | _ => false end.

(** Number of type nodes; every unwrap step strictly decreases it. *)
Fixpoint Type_size (t : llvmType) : nat :=
  match t with
  | StructTy _ _ es =>
      S ((fix sum (xs : list llvmType) : nat :=
            match xs with
            | [] => O
            | x :: xs' => (Type_size x + sum xs')%nat
            end) es)
  | ArrayTy e _ => S (Type_size e)
  | VectorTy e _ _ => S (Type_size e)
  | _ => 1%nat
  end.

(** One single-level unwrap step, as the loop of
    [appendZeroIndexToMatchTypes] takes it: a struct gives its first
    member, an array and a vector give their element type. *)
Definition unwrapType (t : llvmType) : option llvmType :=
  match t with
  | StructTy _ _ (e :: _) => Some e
  | ArrayTy e _ => Some e
  | VectorTy e _ _ => Some e
  | _ => None
  end.

(** [k] unwrap steps in a row. *)
Fixpoint unwrapTimes (k : nat) (t : llvmType) : option llvmType :=
  match k with
  | O => Some t
  | S k' => match unwrapType t with
            | Some t' => unwrapTimes k' t'
            | None => None
            end
  end.

(** Length of the first-element chain of a type: the number of unwrap
    steps the cursor can take from it. *)
Fixpoint chainLength (t : llvmType) : nat :=
  match t with
  | StructTy _ _ (e :: _) => S (chainLength e)
  | ArrayTy e _ => S (chainLength e)
  | VectorTy e _ _ => S (chainLength e)
  | _ => O
  end.

(* ===================================================================== *)
(** ** Constants, values and metadata *)
(* ===================================================================== *)

(** An arbitrary-precision integer: a width and the unsigned value of its
    bits. *)
Record APInt : Type := mkAPInt { BitWidth : N; UVal : Z }.

(** [APInt(numBits, val)]: the bits of [val] above the width are
    dropped. *)
Definition APInt_make (numBits : N) (val : Z) : APInt :=
  mkAPInt numBits (val mod 2 ^ Z.of_N numBits).

Inductive Constant : Type :=
| ConstantInt (v : APInt)
| ConstantFP (bits : APInt)
| ConstantPointerNull (addrSpace : N)
| UndefValue (ty : llvmType).

(** Conversion of an integral argument to [uint64_t]. *)
Definition to_uint64 (v : Z) : Z := v mod 2 ^ 64.

(** [ConstantInt::get(IntegerType of width bits, V)] with [uint64_t V]. *)
Definition ConstantInt_get (bits : N) (V : Z) : Constant :=
  ConstantInt (APInt_make bits (to_uint64 V)).

Inductive Value : Type :=
| ConstantValue (c : Constant)
| Argument (argNo : nat)
| Instruction (id : N).

(** [IRBuilder::getInt32(C)]. *)
Definition Builder_getInt32 (C : Z) : Value :=
  ConstantValue (ConstantInt_get 32 C).

(** Metadata; an operand slot of a tuple may be null. *)
Inductive Metadata : Type :=
| ConstantAsMetadata (c : Constant)
| MDString (s : string)
| MDTuple (ops : list (option Metadata)).

(** An [MDNode] is given by its operand list. *)
Definition MDNode : Type := list (option Metadata).

(** [ConstantAsMetadata::get(C)]. *)
Definition ConstantAsMetadata_get (c : Constant) : Metadata :=
  ConstantAsMetadata c.

(** [MDNode::get(context, MDs)]: the uniqued tuple over [MDs]. *)
Definition MDNode_get (MDs : list Metadata) : MDNode := map Some MDs.

(* ===================================================================== *)
(** ** Functions and modules *)
(* ===================================================================== *)

Inductive LinkageTypes : Type :=
| ExternalLinkage
| AvailableExternallyLinkage
| LinkOnceAnyLinkage
| LinkOnceODRLinkage
| WeakAnyLinkage
| WeakODRLinkage
| AppendingLinkage
| InternalLinkage
| PrivateLinkage
| ExternalWeakLinkage
| CommonLinkage.

Definition Linkage_eqb (a b : LinkageTypes) : bool :=
  match a, b with
  | ExternalLinkage, ExternalLinkage
  | AvailableExternallyLinkage, AvailableExternallyLinkage
  | LinkOnceAnyLinkage, LinkOnceAnyLinkage
  | LinkOnceODRLinkage, LinkOnceODRLinkage
  | WeakAnyLinkage, WeakAnyLinkage
  | WeakODRLinkage, WeakODRLinkage
  | AppendingLinkage, AppendingLinkage
  | InternalLinkage, InternalLinkage
  | PrivateLinkage, PrivateLinkage
  | ExternalWeakLinkage, ExternalWeakLinkage
  | CommonLinkage, CommonLinkage => true
  | _, _ => false
  end.

Record BasicBlock : Type := mkBasicBlock { label : string }.

(** A function: its basic blocks (none for a declaration), its linkage
    and its metadata attachments, keyed by kind name. *)
Record Function : Type := mkFunction {
  name : string;
  blocks : list BasicBlock;
  linkage : LinkageTypes;
  attachments : gmap string MDNode
}.

(** [Function::empty()]: the function has no body. *)
Definition Function_empty (f : Function) : bool :=
  match blocks f with [] => true | _ => false end.

Definition Function_getLinkage (f : Function) : LinkageTypes := linkage f.

Record Module : Type := mkModule { functions : list Function }.

(** The test made on each function by the scan of [getEntryPoint]. *)
Definition entryTest (f : Function) : bool :=
  negb (Function_empty f) && Linkage_eqb (Function_getLinkage f) ExternalLinkage.

(** A function that has a body and external linkage. *)
Definition definedExternal (f : Function) : Prop :=
  blocks f <> [] /\ linkage f = ExternalLinkage.

(** No function of the module has both a body and external linkage. *)
Definition noEntryPoint (m : Module) : Prop :=
  forall f, f ∈ functions m -> ~ definedExternal f.

(** [i] is the position of the first function of [funcs] that has a body
    and external linkage. *)
Definition firstDefinedExternal (funcs : list Function) (i : nat) : Prop :=
  exists f, funcs !! i = Some f /\ definedExternal f /\
    forall j g, (j < i)%nat -> funcs !! j = Some g -> ~ definedExternal g.

(** Starting at [packType], the cursor reaches after [k] unwrap steps a
    type that is no struct, array or vector, and neither it nor any
    cursor before it is [typeToMatch]. *)
Definition reachesNonAggregate (typeToMatch packType : llvmType) (k : nat)
  : Prop :=
  exists t, unwrapTimes k packType = Some t /\
    isStructTy t = false /\ isArrayTy t = false /\ isVectorTy t = false /\
    forall j t', (j <= k)%nat -> unwrapTimes j packType = Some t' ->
                 t' <> typeToMatch.

(* ===================================================================== *)
(** ** The external stage interface, instantiated *)
(* ===================================================================== *)

Module SpirvInterface.

(** Modelled from the spec: the shader-stage enumeration is owned by a
    header that is not part of this file; section 6 of the specification
    lists its variants (vertex, tessellation control and evaluation,
    geometry, fragment, compute, the ray-tracing stages, task, mesh and
    the invalid sentinel). *)
Inductive ShaderStage : Type :=
| ShaderStageTask
| ShaderStageVertex
| ShaderStageTessControl
| ShaderStageTessEval
| ShaderStageGeometry
| ShaderStageMesh
| ShaderStageFragment
| ShaderStageCompute
| ShaderStageRayTracingRayGen
| ShaderStageRayTracingIntersect
| ShaderStageRayTracingAnyHit
| ShaderStageRayTracingClosestHit
| ShaderStageRayTracingMiss
| ShaderStageRayTracingCallable
| ShaderStageInvalid.

(** Modelled from the spec: [convertToExecModel] is an external
    collaborator (stage to execution-model code); the codes are those of
    the SPIR-V execution models.  The sentinel has no code of its own and
    is sent to the largest enumerator. *)
Definition convertToExecModel (s : ShaderStage) : Z :=
  match s with
  | ShaderStageVertex => 0
  | ShaderStageTessControl => 1
  | ShaderStageTessEval => 2
  | ShaderStageGeometry => 3
  | ShaderStageFragment => 4
  | ShaderStageCompute => 5
  | ShaderStageTask => 5364
  | ShaderStageMesh => 5365
  | ShaderStageRayTracingRayGen => 5313
  | ShaderStageRayTracingIntersect => 5314
  | ShaderStageRayTracingAnyHit => 5315
  | ShaderStageRayTracingClosestHit => 5316
  | ShaderStageRayTracingMiss => 5317
  | ShaderStageRayTracingCallable => 5318
  | ShaderStageInvalid => 2147483647
  end.

(** Modelled from the spec: [convertToShaderStage] is the external
    reverse conversion (execution-model code to stage); a code that names
    no stage gives the sentinel. *)
Definition convertToShaderStage (execModel : Z) : ShaderStage :=
  if execModel =? 0 then ShaderStageVertex
  else if execModel =? 1 then ShaderStageTessControl
  else if execModel =? 2 then ShaderStageTessEval
  else if execModel =? 3 then ShaderStageGeometry
  else if execModel =? 4 then ShaderStageFragment
  else if execModel =? 5 then ShaderStageCompute
  else if execModel =? 5364 then ShaderStageTask
  else if execModel =? 5365 then ShaderStageMesh
  else if execModel =? 5313 then ShaderStageRayTracingRayGen
  else if execModel =? 5314 then ShaderStageRayTracingIntersect
  else if execModel =? 5315 then ShaderStageRayTracingAnyHit
  else if execModel =? 5316 then ShaderStageRayTracingClosestHit
  else if execModel =? 5317 then ShaderStageRayTracingMiss
  else if execModel =? 5318 then ShaderStageRayTracingCallable
  else ShaderStageInvalid.

(** Modelled from the spec: the metadata key [gSPIRVMD::ExecutionModel],
    the well-known identifier of section 6. *)
Definition ExecutionModel : string := "ExecutionModel".

End SpirvInterface.

(* ===================================================================== *)
(** ** Sample modules and types *)
(* ===================================================================== *)

Module Examples.

(** A helper with a body and internal linkage. *)
Definition helper : Function :=
  mkFunction "helper" [mkBasicBlock "entry"] InternalLinkage ∅.

(** The shader's main routine: a body and external linkage, no metadata. *)
Definition main : Function :=
  mkFunction "main" [mkBasicBlock "entry"] ExternalLinkage ∅.

(** An external declaration without a body. *)
Definition decl : Function :=
  mkFunction "decl" [] ExternalLinkage ∅.

(** [main] with an execution-model node over one constant. *)
Definition taggedMain (c : Constant) : Function :=
  mkFunction "main" [mkBasicBlock "entry"] ExternalLinkage
    {[ SpirvInterface.ExecutionModel := [Some (ConstantAsMetadata c)] ]}.

(** The unit of the specification's scenario: [helper], then [main]. *)
Definition scenarioUnit : Module := mkModule [helper; main].

(** [main] between functions that do not qualify. *)
Definition mixedUnit : Module := mkModule [decl; helper; main; helper; decl].

(** A unit without any function that has a body and external linkage. *)
Definition noEntryUnit : Module := mkModule [helper; decl].

(** A unit tagged with fragment (code 4) as a 32-bit constant. *)
Definition fragmentUnit : Module :=
  mkModule [helper; taggedMain (ConstantInt (mkAPInt 32 4))].

(** A unit whose tag is the 128-bit constant [2 ^ 64]. *)
Definition wideUnit : Module :=
  mkModule [taggedMain (ConstantInt (mkAPInt 128 (2 ^ 64)))].

(** A struct whose first member is an array of four floats. *)
Definition packedFloats : llvmType :=
  StructTy None false [ArrayTy FloatTy 4; IntegerTy 32].

End Examples.

(* ===================================================================== *)
(** ** The routines of llpcSpirvLowerUtil.cpp *)
(* ===================================================================== *)

Section Lowering.

(** Build mode: [NDEBUG] defined compiles [assert] away and turns
    [llvm_unreachable] into an optimizer hint. *)
Variable NDEBUG : bool.

(** The parts owned by other files: the stage enumeration with its
    sentinel, the two conversion functions and the metadata key. *)
Variable ShaderStage : Type.
Variable ShaderStageInvalid : ShaderStage.
Variable convertToShaderStage : Z -> ShaderStage.
Variable convertToExecModel : ShaderStage -> Z.
Variable gSPIRVMD_ExecutionModel : string.

(** [assert(cond)]. *)
Definition assert {St} (cond : bool) : M St unit :=
  if NDEBUG then ret tt
  else if cond then ret tt else abort.

(** [llvm_unreachable(msg)]; also the effect of a failed library
    assertion that is followed by an invalid access. *)
Definition llvm_unreachable {St A} : M St A :=
  if NDEBUG then undefined else abort.

(** The loop of [getEntryPoint] from position [pos] on: the first
    function that is not empty and has external linkage. *)
Fixpoint scanEntryPoint (funcs : list Function) (pos : nat) : option nat :=
  match funcs with
  | [] => None
  | func :: rest =>
      if negb (Function_empty func)
         && Linkage_eqb (Function_getLinkage func) ExternalLinkage
      then Some pos
      else scanEntryPoint rest (S pos)
  end.

Definition getEntryPoint : M Module (option nat) :=
  module ← get_state;
  let entryPoint := scanEntryPoint (functions module) 0 in
  assert (bool_decide (is_Some entryPoint));;
  ret entryPoint.

(** [func->getMetadata(kind)]. *)
Definition Function_getMetadata (func : option nat) (kind : string)
  : M Module (option MDNode) :=
  match func with
  | None => undefined
  | Some i =>
      module ← get_state;
      match functions module !! i with
      | Some f => ret (attachments f !! kind)
      | None => undefined
      end
  end.

(** [func->setMetadata(kind, node)]: replaces the attachment of that
    kind, or removes it when [node] is null. *)
Definition Function_setMetadata (func : option nat) (kind : string)
    (node : option MDNode) : M Module unit :=
  match func with
  | None => undefined
  | Some i =>
      module ← get_state;
      match functions module !! i with
      | Some f =>
          let md := match node with
                    | Some n => <[kind := n]> (attachments f)
                    | None => delete kind (attachments f)
                    end in
          put_state
            (mkModule (<[i := mkFunction (name f) (blocks f) (linkage f) md]>
                         (functions module)))
      | None => undefined
      end
  end.

(** [node->getOperand(I)]. *)
Definition MDNode_getOperand {St} (node : MDNode) (I : nat)
  : M St (option Metadata) :=
  match node !! I with
  | Some op => ret op
  | None => llvm_unreachable
  end.

(** [mdconst::dyn_extract<ConstantInt>(MD)]: the integer constant wrapped
    by [MD], null when [MD] wraps something else or is no constant
    wrapper; [MD] itself must not be null. *)
Definition dyn_extract_ConstantInt {St} (MD : option Metadata)
  : M St (option APInt) :=
  match MD with
  | None => llvm_unreachable
  | Some (ConstantAsMetadata (ConstantInt v)) => ret (Some v)
  | Some _ => ret None
  end.

(** [ci->getZExtValue()]: the value as [uint64_t]; a value wider than one
    word must fit into 64 bits. *)
Definition ConstantInt_getZExtValue {St} (ci : option APInt) : M St Z :=
  match ci with
  | None => undefined
  | Some v =>
      if (BitWidth v <=? 64)%N then ret (UVal v)
      else assert (UVal v <? 2 ^ 64);; ret (UVal v mod 2 ^ 64)
  end.

Definition getShaderStageFromModule : M Module ShaderStage :=
  func ← getEntryPoint;
  execModelNode ← Function_getMetadata func gSPIRVMD_ExecutionModel;
  match execModelNode with
  | None => ret ShaderStageInvalid
  | Some node =>
      op ← MDNode_getOperand node 0;
      ci ← dyn_extract_ConstantInt op;
      execModel ← ConstantInt_getZExtValue ci;
      ret (convertToShaderStage execModel)
  end.

Definition setShaderStageToModule (shaderStage : ShaderStage) : M Module unit :=
  func ← getEntryPoint;
  let execModel := convertToExecModel shaderStage in
  let execModelMeta := [ConstantAsMetadata_get (ConstantInt_get 32 execModel)] in
  let execModelMetaNode := MDNode_get execModelMeta in
  Function_setMetadata func gSPIRVMD_ExecutionModel (Some execModelMetaNode).

(** [indexOperands.push_back(v)]. *)
Definition push_back (v : Value) : M (list Value) unit :=
  fun indexOperands => (Ret tt, indexOperands ++ [v]).

(** The [while] loop of [appendZeroIndexToMatchTypes] with its cursor
    [unpackType]; [getStructElementType(0)] of a struct without members
    is a failed range assertion. *)
Fixpoint unpackLoop (zero : Value) (typeToMatch unpackType : llvmType)
    {struct unpackType} : M (list Value) unit :=
  if Type_eqb unpackType typeToMatch then ret tt
  else
    push_back zero;;
    match unpackType with
    | StructTy _ _ elems =>
        match elems with
        | first :: _ => unpackLoop zero typeToMatch first
        | [] => llvm_unreachable
        end
    | ArrayTy elem _ => unpackLoop zero typeToMatch elem
    | VectorTy elem _ _ => unpackLoop zero typeToMatch elem
    | _ => llvm_unreachable
    end.

Definition appendZeroIndexToMatchTypes (typeToMatch packType : llvmType)
  : M (list Value) unit :=
  let unpackType := packType in
  let zero := Builder_getInt32 0 in
  unpackLoop zero typeToMatch unpackType.


(* ===================================================================== *)
(** ** Type comparison and unwrapping *)
(* ===================================================================== *)

(** Induction over types with the members of a struct covered. *)
Lemma llvmType_rect_Forall (P : llvmType -> Prop) :
  P VoidTy -> P LabelTy -> P HalfTy -> P FloatTy -> P DoubleTy ->
  (forall n, P (IntegerTy n)) ->
  (forall n, P (PointerTy n)) ->
  (forall i p es, Forall P es -> P (StructTy i p es)) ->
  (forall e n, P e -> P (ArrayTy e n)) ->
  (forall e n s, P e -> P (VectorTy e n s)) ->
  forall t, P t.
Proof.
  intros HV HL HH HF HD HI HP HS HA HVe.
  fix IH 1. intros [ | | | | | n | n | i p es | e n | e n s ].
  - exact HV.
  - exact HL.
  - exact HH.
  - exact HF.
  - exact HD.
  - apply HI.
  - apply HP.
  - apply HS. induction es as [|x xs IHxs]; constructor; [apply IH | exact IHxs].
  - apply HA, IH.
  - apply HVe, IH.
Qed.

Lemma option_N_eqb_eq (a b : option N) : option_N_eqb a b = true <-> a = b.
Proof.
  destruct a as [x|], b as [y|]; simpl; try (split; congruence).
  rewrite N.eqb_eq. split; congruence.
Qed.

Lemma Type_eqb_eq (a b : llvmType) : Type_eqb a b = true <-> a = b.
Proof.
  revert b. induction a as [ | | | | | n | n | i p es IHes | e n IHe | e n s IHe ]
    using llvmType_rect_Forall; intros b; destruct b; simpl;
    try (split; (congruence || reflexivity)).
  - rewrite N.eqb_eq. split; congruence.
  - rewrite N.eqb_eq. split; congruence.
  - rewrite !andb_true_iff, option_N_eqb_eq, Bool.eqb_true_iff.
    match goal with |- _ /\ ?X = true <-> _ => assert (Hl : X = true <-> es = elems) end.
    { clear i p ident packed. revert elems.
      induction IHes as [|x xs Hx _ IHxs]; intros [|y ys]; simpl;
        try (split; (congruence || reflexivity)).
      rewrite andb_true_iff, Hx, IHxs. split; [intros [-> ->]; reflexivity|].
      intros H; inversion H; auto. }
    rewrite Hl. split; [intros [[-> ->] ->]; reflexivity|].
    intros H; inversion H; auto.
  - rewrite andb_true_iff, IHe, N.eqb_eq. split; [intros [-> ->]; reflexivity|].
    intros H; inversion H; auto.
  - rewrite !andb_true_iff, IHe, N.eqb_eq, Bool.eqb_true_iff.
    split; [intros [[-> ->] ->]; reflexivity|].
    intros H; inversion H; auto.
Qed.

Lemma Type_eqb_refl (t : llvmType) : Type_eqb t t = true.
Proof. apply Type_eqb_eq. reflexivity. Qed.

Lemma Type_eqb_neq (a b : llvmType) : a <> b -> Type_eqb a b = false.
Proof.
  intros H. destruct (Type_eqb a b) eqn:E; [|reflexivity].
  apply Type_eqb_eq in E. contradiction.
Qed.

(** An unwrap step leads to a strictly smaller type. *)
Lemma unwrapType_size (t t' : llvmType) :
  unwrapType t = Some t' -> (Type_size t' < Type_size t)%nat.
Proof.
  destruct t as [ | | | | | n | n | i p [|x xs] | e n | e n s ]; simpl;
    intros H; inversion H; subst; lia.
Qed.

Lemma unwrapTimes_size (k : nat) (t t' : llvmType) :
  unwrapTimes k t = Some t' -> (Type_size t' + k <= Type_size t)%nat.
Proof.
  revert t. induction k as [|k IH]; simpl; intros t H.
  - inversion H; subst. lia.
  - destruct (unwrapType t) as [u|] eqn:E; [|discriminate].
    apply unwrapType_size in E. apply IH in H. lia.
Qed.

(** A type is never reached from itself by one or more unwrap steps. *)
Lemma unwrapTimes_S_neq (k : nat) (t t' : llvmType) :
  unwrapTimes (S k) t = Some t' -> Type_eqb t t' = false.
Proof.
  intros H. apply Type_eqb_neq. intros ->.
  apply unwrapTimes_size in H. lia.
Qed.

(* ===================================================================== *)
(** ** The entry point *)
(* ===================================================================== *)

Lemma entryTest_definedExternal (f : Function) :
  entryTest f = true <-> definedExternal f.
Proof.
  unfold entryTest, definedExternal, Function_empty, Function_getLinkage.
  rewrite andb_true_iff, negb_true_iff.
  destruct (blocks f) as [|b bs], (linkage f); simpl; split;
    intros [H1 H2]; try discriminate; try contradiction; split; congruence.
Qed.

Lemma entryTest_false (f : Function) :
  ~ definedExternal f -> entryTest f = false.
Proof.
  intros H. destruct (entryTest f) eqn:E; [|reflexivity].
  apply entryTest_definedExternal in E. contradiction.
Qed.

Lemma scanEntryPoint_skip (pre : list Function) (f : Function)
    (post : list Function) (pos : nat) :
  Forall (fun g => ~ definedExternal g) pre ->
  definedExternal f ->
  scanEntryPoint (pre ++ f :: post) pos = Some (pos + length pre)%nat.
Proof.
  intros Hpre Hf. revert pos.
  induction Hpre as [|g pre Hg _ IH]; intros pos; simpl.
  - apply entryTest_definedExternal in Hf. unfold entryTest in Hf.
    rewrite Hf. f_equal. lia.
  - apply entryTest_false in Hg. unfold entryTest in Hg. rewrite Hg.
    rewrite IH. f_equal. lia.
Qed.

Lemma scanEntryPoint_none (funcs : list Function) (pos : nat) :
  (forall f, f ∈ funcs -> ~ definedExternal f) ->
  scanEntryPoint funcs pos = None.
Proof.
  revert pos. induction funcs as [|g funcs IH]; intros pos H; simpl.
  - reflexivity.
  - assert (Hg : entryTest g = false).
    { apply entryTest_false, H. constructor. }
    unfold entryTest in Hg. rewrite Hg. apply IH.
    intros f Hf. apply H. now constructor.
Qed.

(** A list with a defined external function splits at the first one. *)
Lemma first_definedExternal_split (funcs : list Function) :
  (exists f, f ∈ funcs /\ definedExternal f) ->
  exists pre f post, funcs = pre ++ f :: post /\
    Forall (fun g => ~ definedExternal g) pre /\ definedExternal f.
Proof.
  induction funcs as [|g funcs IH]; intros [f [Hin Hf]].
  - inversion Hin.
  - destruct (entryTest g) eqn:E.
    + exists [], g, funcs. split; [reflexivity|]. split; [constructor|].
      now apply entryTest_definedExternal.
    + assert (Hg : ~ definedExternal g).
      { intros C. apply entryTest_definedExternal in C. congruence. }
      destruct IH as (pre & f' & post & -> & Hpre & Hf').
      { exists f. split; [|exact Hf].
        inversion Hin; subst; [contradiction | assumption]. }
      exists (g :: pre), f', post. split; [reflexivity|].
      split; [constructor; assumption | assumption].
Qed.

(** [getEntryPoint] in closed form. *)
Lemma getEntryPoint_unfold (m : Module) :
  getEntryPoint m =
  (match scanEntryPoint (functions m) 0 with
   | Some i => Ret (Some i)
   | None => if NDEBUG then Ret None else Abort
   end, m).
Proof.
  unfold getEntryPoint, mbind, M_bind, bind, get_state, assert. simpl.
  destruct (scanEntryPoint (functions m) 0) as [i|], NDEBUG; reflexivity.
Qed.

Lemma getEntryPoint_found (m : Module) (i : nat) :
  scanEntryPoint (functions m) 0 = Some i ->
  getEntryPoint m = (Ret (Some i), m).
Proof. intros H. now rewrite getEntryPoint_unfold, H. Qed.

Lemma getEntryPoint_split (m : Module) (pre : list Function) (f : Function)
    (post : list Function) :
  functions m = pre ++ f :: post ->
  Forall (fun g => ~ definedExternal g) pre ->
  definedExternal f ->
  getEntryPoint m = (Ret (Some (length pre)), m).
Proof.
  intros Hm Hpre Hf. apply getEntryPoint_found. rewrite Hm.
  now rewrite scanEntryPoint_skip.
Qed.

(** A returned non-null entry point is a position found by the scan. *)
Lemma getEntryPoint_Some_inv (m : Module) (i : nat) :
  fst (getEntryPoint m) = Ret (Some i) ->
  scanEntryPoint (functions m) 0 = Some i.
Proof.
  rewrite getEntryPoint_unfold. simpl.
  destruct (scanEntryPoint (functions m) 0) as [j|], NDEBUG; simpl; congruence.
Qed.

(** C1. In a module with at least one function that has a body and
    external linkage, [getEntryPoint] returns the first such function of
    the function list and leaves the module as it is; when the list is
    [pre ++ f :: post] with [f] the only such function, the result is
    [f], whatever functions without a body or with other linkage make up
    [pre] and [post]. *)
Theorem getEntryPoint_first_defined_external (m : Module) :
  (exists f, f ∈ functions m /\ definedExternal f) ->
  (exists i, getEntryPoint m = (Ret (Some i), m) /\
             firstDefinedExternal (functions m) i) /\
  (forall pre f post,
      functions m = pre ++ f :: post ->
      definedExternal f ->
      Forall (fun g => ~ definedExternal g) pre ->
      Forall (fun g => ~ definedExternal g) post ->
      getEntryPoint m = (Ret (Some (length pre)), m) /\
      functions m !! length pre = Some f).
Proof.
  intros Hex. split.
  - destruct (first_definedExternal_split _ Hex) as (pre & f & post & Hm & Hpre & Hf).
    exists (length pre). split; [now apply (getEntryPoint_split m pre f post)|].
    exists f. rewrite Hm. split; [|split; [exact Hf|]].
    + rewrite lookup_app_r by lia. now rewrite Nat.sub_diag.
    + intros j g Hj Hg. rewrite lookup_app_l in Hg by exact Hj.
      rewrite Forall_forall in Hpre. apply Hpre.
      eapply list_elem_of_lookup_2, Hg.
  - intros pre f post Hm Hf Hpre _. split.
    + now apply (getEntryPoint_split m pre f post).
    + rewrite Hm, lookup_app_r by lia. now rewrite Nat.sub_diag.
Qed.

(* ===================================================================== *)
(** ** Computations that only read *)
(* ===================================================================== *)

Lemma readOnly_ret {St A} (a : A) : readOnly (St := St) (ret a).
Proof. intros s. reflexivity. Qed.

Lemma readOnly_abort {St A} : readOnly (St := St) (A := A) abort.
Proof. intros s. reflexivity. Qed.

Lemma readOnly_undefined {St A} : readOnly (St := St) (A := A) undefined.
Proof. intros s. reflexivity. Qed.

Lemma readOnly_get_state {St} : readOnly (St := St) get_state.
Proof. intros s. reflexivity. Qed.

Lemma readOnly_bind {St A B} (c : M St A) (k : A -> M St B) :
  readOnly c -> (forall a, readOnly (k a)) -> readOnly (c ≫= k).
Proof.
  intros Hc Hk s. unfold mbind, M_bind, bind.
  specialize (Hc s). destruct (c s) as [[a| |] s']; simpl in *; subst;
    [apply Hk | reflexivity | reflexivity].
Qed.

Lemma readOnly_assert {St} (cond : bool) : readOnly (St := St) (assert cond).
Proof. unfold assert. destruct NDEBUG, cond; intros s; reflexivity. Qed.

Lemma readOnly_llvm_unreachable {St A} :
  readOnly (St := St) (A := A) llvm_unreachable.
Proof. unfold llvm_unreachable. destruct NDEBUG; intros s; reflexivity. Qed.

Lemma readOnly_getEntryPoint : readOnly getEntryPoint.
Proof. intros m. now rewrite getEntryPoint_unfold. Qed.

Lemma readOnly_Function_getMetadata (func : option nat) (kind : string) :
  readOnly (Function_getMetadata func kind).
Proof.
  destruct func as [i|]; simpl; [|apply readOnly_undefined].
  apply readOnly_bind; [apply readOnly_get_state|].
  intros module. destruct (functions module !! i);
    [apply readOnly_ret | apply readOnly_undefined].
Qed.

Lemma readOnly_MDNode_getOperand {St} (node : MDNode) (I : nat) :
  readOnly (St := St) (MDNode_getOperand node I).
Proof.
  unfold MDNode_getOperand. destruct (node !! I);
    [apply readOnly_ret | apply readOnly_llvm_unreachable].
Qed.

Lemma readOnly_dyn_extract_ConstantInt {St} (MD : option Metadata) :
  readOnly (St := St) (dyn_extract_ConstantInt MD).
Proof.
  destruct MD as [[[v| | |]| |]|]; simpl;
    first [apply readOnly_ret | apply readOnly_llvm_unreachable].
Qed.

Lemma readOnly_ConstantInt_getZExtValue {St} (ci : option APInt) :
  readOnly (St := St) (ConstantInt_getZExtValue ci).
Proof.
  destruct ci as [v|]; simpl; [|apply readOnly_undefined].
  destruct (BitWidth v <=? 64)%N; [apply readOnly_ret|].
  apply readOnly_bind; [apply readOnly_assert | intros _; apply readOnly_ret].
Qed.

(** C9. [getShaderStageFromModule] only reads: whatever the outcome of
    the call, the module after it (function list and every metadata
    attachment) is the module before it. *)
Theorem getShaderStageFromModule_read_only (m : Module) :
  snd (getShaderStageFromModule m) = m /\
  functions (snd (getShaderStageFromModule m)) = functions m /\
  map attachments (functions (snd (getShaderStageFromModule m)))
  = map attachments (functions m).
Proof.
  assert (H : readOnly getShaderStageFromModule).
  { unfold getShaderStageFromModule.
    apply readOnly_bind; [apply readOnly_getEntryPoint | intros func].
    apply readOnly_bind; [apply readOnly_Function_getMetadata | intros [node|]].
    - apply readOnly_bind; [apply readOnly_MDNode_getOperand | intros op].
      apply readOnly_bind; [apply readOnly_dyn_extract_ConstantInt | intros ci].
      apply readOnly_bind; [apply readOnly_ConstantInt_getZExtValue | intros e].
      apply readOnly_ret.
    - apply readOnly_ret. }
  rewrite (H m). auto.
Qed.

(* ===================================================================== *)
(** ** Reading and writing the stage *)
(* ===================================================================== *)

Lemma scanEntryPoint_lookup (funcs : list Function) (pos i : nat) :
  scanEntryPoint funcs pos = Some i ->
  (pos <= i)%nat /\
  exists f, funcs !! (i - pos)%nat = Some f /\ entryTest f = true.
Proof.
  revert pos. induction funcs as [|g funcs IH]; intros pos; simpl.
  - discriminate.
  - fold (entryTest g). destruct (entryTest g) eqn:E.
    + intros H. inversion H; subst. split; [lia|].
      exists g. rewrite Nat.sub_diag. split; [reflexivity | exact E].
    + intros H. apply IH in H. destruct H as [Hle (f & Hf & Ht)].
      split; [lia|]. exists f. split; [|exact Ht].
      replace (i - pos)%nat with (S (i - S pos)) by lia. exact Hf.
Qed.

(** Replacing a function by one with the same body and linkage does not
    move the entry point. *)
Lemma scanEntryPoint_insert (funcs : list Function) (pos j : nat)
    (f f' : Function) :
  funcs !! j = Some f ->
  entryTest f' = entryTest f ->
  scanEntryPoint (<[j := f']> funcs) pos = scanEntryPoint funcs pos.
Proof.
  revert pos j. induction funcs as [|g funcs IH]; intros pos j Hj Ht.
  - reflexivity.
  - destruct j as [|j]; simpl in *.
    + inversion Hj; subst. fold (entryTest f') (entryTest f). now rewrite Ht.
    + fold (entryTest g). destruct (entryTest g); [reflexivity|].
      now apply IH.
Qed.

(** A 32-bit constant keeps the low 32 bits of the value it is made
    from. *)
Lemma ConstantInt_get_32 (V : Z) :
  ConstantInt_get 32 V = ConstantInt (mkAPInt 32 (V mod 2 ^ 32)).
Proof.
  unfold ConstantInt_get, APInt_make, to_uint64. do 2 f_equal.
  change (2 ^ 64) with (2 ^ 32 * 2 ^ 32).
  change (2 ^ Z.of_N 32) with (2 ^ 32).
  rewrite Z.rem_mul_r by lia.
  rewrite Z.mul_comm, Z_mod_plus_full. apply Z.mod_mod. lia.
Qed.

(** The decoding of an attached node, as [getShaderStageFromModule]
    performs it once the entry function [f] at position [i] is known. *)
Lemma getShaderStageFromModule_at (m : Module) (i : nat) (f : Function) :
  scanEntryPoint (functions m) 0 = Some i ->
  functions m !! i = Some f ->
  getShaderStageFromModule m =
  match attachments f !! gSPIRVMD_ExecutionModel with
  | None => (Ret ShaderStageInvalid, m)
  | Some node =>
      (op ← MDNode_getOperand node 0;
       ci ← dyn_extract_ConstantInt op;
       execModel ← ConstantInt_getZExtValue ci;
       ret (convertToShaderStage execModel)) m
  end.
Proof.
  intros Hs Hf. unfold getShaderStageFromModule.
  unfold mbind at 1, M_bind at 1, bind at 1.
  rewrite (getEntryPoint_found _ _ Hs).
  unfold mbind at 1, M_bind at 1, bind at 1.
  unfold Function_getMetadata, get_state.
  unfold mbind at 1, M_bind at 1, bind at 1. rewrite Hf. simpl.
  destruct (attachments f !! gSPIRVMD_ExecutionModel); reflexivity.
Qed.

(** The node that [setShaderStageToModule] attaches for a stage. *)
Lemma setShaderStageToModule_at (m : Module) (i : nat) (f : Function)
    (s : ShaderStage) :
  scanEntryPoint (functions m) 0 = Some i ->
  functions m !! i = Some f ->
  setShaderStageToModule s m =
  (Ret tt,
   mkModule
     (<[i := mkFunction (name f) (blocks f) (linkage f)
               (<[gSPIRVMD_ExecutionModel :=
                    [Some (ConstantAsMetadata
                             (ConstantInt
                                (mkAPInt 32 (convertToExecModel s mod 2 ^ 32))))]]>
                  (attachments f))]>
        (functions m))).
Proof.
  intros Hs Hf. unfold setShaderStageToModule.
  unfold mbind at 1, M_bind at 1, bind at 1.
  rewrite (getEntryPoint_found _ _ Hs).
  unfold Function_setMetadata, get_state, put_state.
  unfold mbind at 1, M_bind at 1, bind at 1. rewrite Hf. simpl.
  now rewrite ConstantInt_get_32.
Qed.

(** C4. When the entry function of the module carries no metadata under
    the execution-model key, [getShaderStageFromModule] returns the
    sentinel [ShaderStageInvalid]; it neither aborts nor faults. *)
Theorem getShaderStageFromModule_untagged (m : Module) (i : nat) (f : Function) :
  fst (getEntryPoint m) = Ret (Some i) ->
  functions m !! i = Some f ->
  attachments f !! gSPIRVMD_ExecutionModel = None ->
  getShaderStageFromModule m = (Ret ShaderStageInvalid, m).
Proof.
  intros He Hf Hmd. apply getEntryPoint_Some_inv in He.
  rewrite (getShaderStageFromModule_at m i f He Hf), Hmd. reflexivity.
Qed.

(** A module with a defined external function has an entry position. *)
Lemma entry_position (m : Module) :
  (exists f, f ∈ functions m /\ definedExternal f) ->
  exists i f, scanEntryPoint (functions m) 0 = Some i /\
              functions m !! i = Some f.
Proof.
  intros Hex.
  destruct (first_definedExternal_split _ Hex) as (pre & f & post & Hm & Hpre & Hf).
  exists (length pre), f. rewrite Hm. split.
  - now rewrite scanEntryPoint_skip.
  - rewrite lookup_app_r by lia. now rewrite Nat.sub_diag.
Qed.

(** Decoding a node whose first operand wraps an integer constant that
    [getZExtValue] accepts. *)
Lemma decode_integer_constant (m : Module) (node : MDNode) (v : APInt) :
  node !! 0%nat = Some (Some (ConstantAsMetadata (ConstantInt v))) ->
  (BitWidth v <= 64)%N \/ 0 <= UVal v < 2 ^ 64 ->
  (op ← MDNode_getOperand node 0;
   ci ← dyn_extract_ConstantInt op;
   execModel ← ConstantInt_getZExtValue ci;
   ret (convertToShaderStage execModel)) m
  = (Ret (convertToShaderStage (UVal v)), m).
Proof.
  intros Hop Hfit.
  unfold MDNode_getOperand, mbind, M_bind, bind. rewrite Hop. simpl.
  destruct (BitWidth v <=? 64)%N eqn:E; [reflexivity|].
  destruct Hfit as [Hw | Hv]; [apply N.leb_le in Hw; congruence|].
  unfold assert, bind.
  assert (Hlt : (UVal v <? 2 ^ 64) = true) by (apply Z.ltb_lt; lia).
  rewrite Hlt, Z.mod_small by lia.
  destruct NDEBUG; reflexivity.
Qed.

(** C10, amended. For a module whose entry function carries an
    execution-model node whose operand 0 is an integer constant of at
    most 64 bits (or a wider one whose value fits into 64 bits), the
    unchecked extraction never yields null: [getShaderStageFromModule]
    returns [convertToShaderStage] of the constant's zero-extended
    value, and the module is unchanged. *)
Theorem getShaderStageFromModule_decodes (m : Module) (i : nat) (f : Function)
    (node : MDNode) (v : APInt) :
  fst (getEntryPoint m) = Ret (Some i) ->
  functions m !! i = Some f ->
  attachments f !! gSPIRVMD_ExecutionModel = Some node ->
  node !! 0%nat = Some (Some (ConstantAsMetadata (ConstantInt v))) ->
  (BitWidth v <= 64)%N \/ 0 <= UVal v < 2 ^ 64 ->
  getShaderStageFromModule m = (Ret (convertToShaderStage (UVal v)), m).
Proof.
  intros He Hf Hmd Hop Hfit. apply getEntryPoint_Some_inv in He.
  rewrite (getShaderStageFromModule_at m i f He Hf), Hmd.
  now apply decode_integer_constant.
Qed.

(** The module after [setShaderStageToModule]: same entry position, and
    the entry function carries the one-operand node. *)
Lemma setShaderStageToModule_effect (m : Module) (s : ShaderStage) :
  (exists f, f ∈ functions m /\ definedExternal f) ->
  exists i f m',
    setShaderStageToModule s m = (Ret tt, m') /\
    scanEntryPoint (functions m) 0 = Some i /\
    functions m !! i = Some f /\
    scanEntryPoint (functions m') 0 = Some i /\
    functions m' !! i =
      Some (mkFunction (name f) (blocks f) (linkage f)
              (<[gSPIRVMD_ExecutionModel :=
                   [Some (ConstantAsMetadata
                            (ConstantInt
                               (mkAPInt 32 (convertToExecModel s mod 2 ^ 32))))]]>
                 (attachments f))) /\
    functions m' = <[i := mkFunction (name f) (blocks f) (linkage f)
              (<[gSPIRVMD_ExecutionModel :=
                   [Some (ConstantAsMetadata
                            (ConstantInt
                               (mkAPInt 32 (convertToExecModel s mod 2 ^ 32))))]]>
                 (attachments f))]> (functions m).
Proof.
  intros Hex. destruct (entry_position m Hex) as (i & f & Hs & Hf).
  exists i, f. eexists. split; [apply (setShaderStageToModule_at m i f s Hs Hf)|].
  split; [exact Hs|]. split; [exact Hf|]. simpl. split; [|split].
  - rewrite (scanEntryPoint_insert _ _ _ f) by (exact Hf || reflexivity).
    exact Hs.
  - apply list_lookup_insert_eq. eapply lookup_lt_Some, Hf.
  - reflexivity.
Qed.

(** C3. Round trip: in a module with a defined external function, for a
    stage [s] other than the sentinel, [setShaderStageToModule s]
    followed by [getShaderStageFromModule] returns [s], provided the
    external conversions are inverse to each other on the valid stages
    and map them to codes of the 32-bit execution-model enumeration. *)
Theorem shaderStage_round_trip (m : Module) (s : ShaderStage) :
  (exists f, f ∈ functions m /\ definedExternal f) ->
  s <> ShaderStageInvalid ->
  (forall s', s' <> ShaderStageInvalid ->
              convertToShaderStage (convertToExecModel s') = s') ->
  (forall s', s' <> ShaderStageInvalid ->
              0 <= convertToExecModel s' < 2 ^ 32) ->
  fst ((setShaderStageToModule s;; getShaderStageFromModule) m) = Ret s.
Proof.
  intros Hex Hs Hinv Hrange.
  destruct (setShaderStageToModule_effect m s Hex)
    as (i & f & m' & Hset & _ & _ & Hs' & Hf' & _).
  unfold mbind, M_bind, bind. rewrite Hset.
  rewrite (getShaderStageFromModule_at m' i _ Hs' Hf'). simpl.
  rewrite lookup_insert_eq.
  rewrite decode_integer_constant with
    (v := mkAPInt 32 (convertToExecModel s mod 2 ^ 32));
    [|reflexivity|left; simpl; lia].
  simpl. rewrite Z.mod_small by (apply Hrange, Hs).
  now rewrite Hinv.
Qed.

(** C7. Idempotence: in a module with a defined external function,
    calling [setShaderStageToModule] with the same stage twice returns
    and leaves exactly the module that one call leaves; after the first
    call and after the second the entry function carries, under the
    execution-model key, the same one-operand node over the 32-bit
    constant of the stage's code, so the second call overwrites the
    attachment with an identical record. *)
Theorem setShaderStageToModule_idempotent (m : Module) (s : ShaderStage) :
  (exists f, f ∈ functions m /\ definedExternal f) ->
  (setShaderStageToModule s;; setShaderStageToModule s) m
  = setShaderStageToModule s m /\
  fst (setShaderStageToModule s m) = Ret tt /\
  exists i f1 f2,
    getEntryPoint m = (Ret (Some i), m) /\
    functions (snd (setShaderStageToModule s m)) !! i = Some f1 /\
    functions
      (snd ((setShaderStageToModule s;; setShaderStageToModule s) m)) !! i
    = Some f2 /\
    attachments f1 !! gSPIRVMD_ExecutionModel
    = Some [Some (ConstantAsMetadata
                    (ConstantInt
                       (mkAPInt 32 (convertToExecModel s mod 2 ^ 32))))] /\
    attachments f2 !! gSPIRVMD_ExecutionModel
    = attachments f1 !! gSPIRVMD_ExecutionModel.
Proof.
  intros Hex.
  destruct (setShaderStageToModule_effect m s Hex)
    as (i & f & m' & Hset & Hs & _ & Hs' & Hf' & Hm').
  assert (Htwice : (setShaderStageToModule s;; setShaderStageToModule s) m
                   = setShaderStageToModule s m).
  { unfold mbind, M_bind, bind. rewrite Hset.
    rewrite (setShaderStageToModule_at m' i _ s Hs' Hf'). simpl.
    rewrite insert_insert_eq, Hm', list_insert_insert_eq.
    destruct m' as [fs]. simpl in Hm'. now rewrite Hm'. }
  split; [exact Htwice|]. split; [now rewrite Hset|].
  exists i. eexists. eexists.
  split; [exact (getEntryPoint_found m i Hs)|].
  rewrite Htwice, Hset. simpl.
  split; [exact Hf'|]. split; [exact Hf'|]. simpl.
  split; [apply lookup_insert_eq | reflexivity].
Qed.

(* ===================================================================== *)
(** ** Zero indices *)
(* ===================================================================== *)

(** One iteration of the loop, on the cursor's unwrap step. *)
Lemma unpackLoop_step (zero : Value) (typeToMatch t : llvmType)
    (ops : list Value) :
  unpackLoop zero typeToMatch t ops =
  if Type_eqb t typeToMatch then (Ret tt, ops)
  else match unwrapType t with
       | Some t' => unpackLoop zero typeToMatch t' (ops ++ [zero])
       | None => llvm_unreachable (ops ++ [zero])
       end.
Proof.
  destruct t as [ | | | | | n | n | i p [|x xs] | e n | e n s ];
    cbn [unpackLoop unwrapType];
    match goal with
    | |- context [Type_eqb ?a ?b] => destruct (Type_eqb a b)
    end; reflexivity.
Qed.

(** Induction along the unwrap steps of a type. *)
Lemma unwrap_induction (P : llvmType -> Prop) :
  (forall t, (forall t', unwrapType t = Some t' -> P t') -> P t) ->
  forall t, P t.
Proof.
  intros Hstep t.
  assert (H : forall n t, (Type_size t <= n)%nat -> P t).
  { clear t. induction n as [|n IH]; intros t Hn.
    - apply Hstep. intros t' Ht'. apply unwrapType_size in Ht'. lia.
    - apply Hstep. intros t' Ht'. apply IH.
      apply unwrapType_size in Ht'. lia. }
  apply (H (Type_size t)). lia.
Qed.

Lemma llvm_unreachable_state {St A} (s : St) :
  snd (llvm_unreachable (A := A) s) = s.
Proof. unfold llvm_unreachable. destruct NDEBUG; reflexivity. Qed.

Lemma llvm_unreachable_outcome {St A} (s s' : St) :
  fst (llvm_unreachable (A := A) s) = fst (llvm_unreachable (A := A) s').
Proof. unfold llvm_unreachable. destruct NDEBUG; reflexivity. Qed.

(** What the loop leaves in the list: the old entries, then some number
    of copies of [zero]. *)
Lemma unpackLoop_appends (zero : Value) (typeToMatch t : llvmType) :
  forall ops, exists n,
    snd (unpackLoop zero typeToMatch t ops) = ops ++ replicate n zero.
Proof.
  induction t as [t IH] using unwrap_induction. intros ops.
  rewrite unpackLoop_step. destruct (Type_eqb t typeToMatch).
  - exists 0%nat. simpl. now rewrite app_nil_r.
  - destruct (unwrapType t) as [t'|] eqn:E.
    + destruct (IH t' eq_refl (ops ++ [zero])) as [n Hn].
      exists (S n). rewrite Hn, <- app_assoc. reflexivity.
    + exists 1%nat. now rewrite llvm_unreachable_state.
Qed.

(** The outcome of the loop does not depend on the list it is given. *)
Lemma unpackLoop_outcome (zero : Value) (typeToMatch t : llvmType) :
  forall ops ops',
    fst (unpackLoop zero typeToMatch t ops)
    = fst (unpackLoop zero typeToMatch t ops').
Proof.
  induction t as [t IH] using unwrap_induction. intros ops ops'.
  rewrite !unpackLoop_step. destruct (Type_eqb t typeToMatch); [reflexivity|].
  destruct (unwrapType t) as [t'|] eqn:E.
  - now apply IH.
  - apply llvm_unreachable_outcome.
Qed.

(** The entries the loop adds do not depend on the list either. *)
Lemma unpackLoop_added (zero : Value) (typeToMatch t : llvmType) :
  forall ops,
    snd (unpackLoop zero typeToMatch t ops)
    = ops ++ snd (unpackLoop zero typeToMatch t []).
Proof.
  induction t as [t IH] using unwrap_induction. intros ops.
  rewrite !unpackLoop_step. destruct (Type_eqb t typeToMatch).
  - simpl. now rewrite app_nil_r.
  - destruct (unwrapType t) as [t'|] eqn:E.
    + rewrite (IH t' eq_refl (ops ++ [zero])), (IH t' eq_refl ([] ++ [zero])).
      now rewrite <- app_assoc.
    + now rewrite !llvm_unreachable_state.
Qed.

(** The loop on a chain of [k] unwrap steps that ends in the target. *)
Lemma unpackLoop_reaches (zero : Value) (typeToMatch : llvmType) (k : nat) :
  forall t ops,
    unwrapTimes k t = Some typeToMatch ->
    unpackLoop zero typeToMatch t ops = (Ret tt, ops ++ replicate k zero).
Proof.
  induction k as [|k IH]; intros t ops H.
  - simpl in H. inversion H; subst.
    rewrite unpackLoop_step, Type_eqb_refl. simpl. now rewrite app_nil_r.
  - rewrite unpackLoop_step, (unwrapTimes_S_neq k t typeToMatch H).
    simpl in H. destruct (unwrapType t) as [t'|]; [|discriminate].
    rewrite (IH t' _ H), <- app_assoc. reflexivity.
Qed.

(** C2. When [typeToMatch] is reached from [packType] by [k] unwrap
    steps, the call returns and has appended exactly [k] entries, so the
    list is [k] longer than before; a struct whose first member is a
    4-element array of [typeToMatch] gives 2 entries, and a [packType]
    equal to [typeToMatch] gives none and leaves the list as it was. *)
Theorem appendZeroIndexToMatchTypes_count :
  (forall (k : nat) (typeToMatch packType : llvmType) (ops : list Value),
      unwrapTimes k packType = Some typeToMatch ->
      fst (appendZeroIndexToMatchTypes typeToMatch packType ops) = Ret tt /\
      length (snd (appendZeroIndexToMatchTypes typeToMatch packType ops))
      = (length ops + k)%nat /\
      take (length ops) (snd (appendZeroIndexToMatchTypes typeToMatch packType ops))
      = ops) /\
  (forall (typeToMatch : llvmType) ident packed rest (ops : list Value),
      fst (appendZeroIndexToMatchTypes typeToMatch
             (StructTy ident packed (ArrayTy typeToMatch 4 :: rest)) ops)
      = Ret tt /\
      length (snd (appendZeroIndexToMatchTypes typeToMatch
                     (StructTy ident packed (ArrayTy typeToMatch 4 :: rest)) ops))
      = (length ops + 2)%nat) /\
  (forall (typeToMatch : llvmType) (ops : list Value),
      appendZeroIndexToMatchTypes typeToMatch typeToMatch ops = (Ret tt, ops)).
Proof.
  unfold appendZeroIndexToMatchTypes. split; [|split].
  - intros k typeToMatch packType ops H.
    rewrite (unpackLoop_reaches _ _ k _ _ H). simpl.
    rewrite length_app, length_replicate. split; [reflexivity|].
    split; [reflexivity|]. now rewrite take_app_length.
  - intros typeToMatch ident packed rest ops.
    rewrite (unpackLoop_reaches _ _ 2); [|reflexivity]. simpl.
    rewrite length_app. split; reflexivity.
  - intros typeToMatch ops.
    rewrite (unpackLoop_reaches _ _ 0); [|reflexivity]. simpl.
    now rewrite app_nil_r.
Qed.

(** C6. Frame: whatever the outcome of the call, the list after it is
    the list before it followed by the appended entries; the old entries
    keep their values and positions, and neither the outcome nor the
    appended entries depend on them. *)
Theorem appendZeroIndexToMatchTypes_frame (typeToMatch packType : llvmType)
    (ops : list Value) :
  appendZeroIndexToMatchTypes typeToMatch packType ops
  = (fst (appendZeroIndexToMatchTypes typeToMatch packType []),
     ops ++ snd (appendZeroIndexToMatchTypes typeToMatch packType [])) /\
  take (length ops) (snd (appendZeroIndexToMatchTypes typeToMatch packType ops))
  = ops.
Proof.
  unfold appendZeroIndexToMatchTypes.
  assert (E : unpackLoop (Builder_getInt32 0) typeToMatch packType ops
              = (fst (unpackLoop (Builder_getInt32 0) typeToMatch packType []),
                 ops ++ snd (unpackLoop (Builder_getInt32 0) typeToMatch packType []))).
  { rewrite <- unpackLoop_added,
      (unpackLoop_outcome _ _ _ [] ops).
    now destruct (unpackLoop _ _ _ ops). }
  split; [exact E|].
  rewrite E. simpl. apply take_app_length.
Qed.

(** C8. Every entry the call appends is the 32-bit integer constant of
    value 0: the list after the call is the list before it followed by
    copies of that constant. *)
Theorem appendZeroIndexToMatchTypes_zero_i32 (typeToMatch packType : llvmType)
    (ops : list Value) :
  exists n,
    snd (appendZeroIndexToMatchTypes typeToMatch packType ops)
    = ops ++ replicate n (ConstantValue (ConstantInt (mkAPInt 32 0))).
Proof.
  unfold appendZeroIndexToMatchTypes.
  destruct (unpackLoop_appends (Builder_getInt32 0) typeToMatch packType ops)
    as [n Hn].
  exists n. rewrite Hn. reflexivity.
Qed.

(** A cursor chain that ends in a non-aggregate type without meeting the
    target runs into the unreachable marker. *)
Lemma unpackLoop_stuck (zero : Value) (typeToMatch : llvmType) (k : nat) :
  forall t ops,
    reachesNonAggregate typeToMatch t k ->
    fst (unpackLoop zero typeToMatch t ops)
    = if NDEBUG then Undefined else Abort.
Proof.
  induction k as [|k IH]; intros t ops (u & Hu & Hs & Ha & Hv & Hne).
  - simpl in Hu. inversion Hu; subst u.
    rewrite unpackLoop_step, Type_eqb_neq by (apply (Hne 0%nat); [lia|reflexivity]).
    assert (E : unwrapType t = None).
    { destruct t as [ | | | | | n | n | i p es | e n | e n s ];
        simpl in *; congruence. }
    rewrite E. unfold llvm_unreachable. destruct NDEBUG; reflexivity.
  - rewrite unpackLoop_step, Type_eqb_neq by (apply (Hne 0%nat); [lia|reflexivity]).
    simpl in Hu. destruct (unwrapType t) as [t'|] eqn:E; [|discriminate].
    apply IH. exists u. repeat (split; [assumption|]).
    intros j t'' Hj Ht''. apply (Hne (S j)); [lia|]. simpl. now rewrite E.
Qed.

(* ===================================================================== *)
(** ** Further properties of the entry point and the stage tag *)
(* ===================================================================== *)

Lemma scanEntryPoint_before (funcs : list Function) (pos i : nat) :
  scanEntryPoint funcs pos = Some i ->
  forall j g, (j < i - pos)%nat -> funcs !! j = Some g -> entryTest g = false.
Proof.
  revert pos. induction funcs as [|g0 funcs IH]; intros pos; simpl.
  - discriminate.
  - fold (entryTest g0). destruct (entryTest g0) eqn:E.
    + intros H j g Hj. inversion H; subst. lia.
    + intros H [|j] g Hj Hg; simpl in Hg.
      * inversion Hg; subst. exact E.
      * apply (IH _ H j g); [|exact Hg].
        apply scanEntryPoint_lookup in H. lia.
Qed.

Lemma scanEntryPoint_None_inv (funcs : list Function) (pos : nat) :
  scanEntryPoint funcs pos = None ->
  forall f, f ∈ funcs -> ~ definedExternal f.
Proof.
  revert pos. induction funcs as [|g funcs IH]; intros pos H f Hf.
  - inversion Hf.
  - simpl in H. fold (entryTest g) in H. destruct (entryTest g) eqn:E;
      [discriminate|].
    inversion Hf; subst.
    + intros C. apply entryTest_definedExternal in C. congruence.
    + now apply (IH _ H).
Qed.

Lemma scanEntryPoint_first (funcs : list Function) (i : nat) :
  scanEntryPoint funcs 0 = Some i -> firstDefinedExternal funcs i.
Proof.
  intros H. destruct (scanEntryPoint_lookup _ _ _ H) as [_ (f & Hf & Ht)].
  rewrite Nat.sub_0_r in Hf. exists f. split; [exact Hf|].
  split; [now apply entryTest_definedExternal|].
  intros j g Hj Hg C. apply entryTest_definedExternal in C.
  rewrite (scanEntryPoint_before _ _ _ H j g) in C; [discriminate|lia|exact Hg].
Qed.

(** X1. The outcomes of [getEntryPoint] are exactly two: either it
    returns a position, and that position holds the first function with
    a body and external linkage; or no function of the module has both,
    and the call aborts with assertions and returns null without them.
    It never returns a function that fails the test. *)
Theorem getEntryPoint_outcomes (m : Module) :
  (exists i, getEntryPoint m = (Ret (Some i), m) /\
             firstDefinedExternal (functions m) i) \/
  (noEntryPoint m /\
   getEntryPoint m = (if NDEBUG then Ret None else Abort, m)).
Proof.
  rewrite getEntryPoint_unfold.
  destruct (scanEntryPoint (functions m) 0) as [i|] eqn:E.
  - left. exists i. split; [reflexivity|]. now apply scanEntryPoint_first.
  - right. split; [|reflexivity].
    intros f Hf. now apply (scanEntryPoint_None_inv _ _ E).
Qed.

(** X2. Without a function that has a body and external linkage,
    [getShaderStageFromModule] does not return: it aborts in the
    assertion of [getEntryPoint], or without assertions dereferences the
    null entry point; the module is left as it was. *)
Theorem getShaderStageFromModule_no_entry (m : Module) :
  noEntryPoint m ->
  getShaderStageFromModule m = (if NDEBUG then Undefined else Abort, m).
Proof.
  intros H. unfold getShaderStageFromModule, mbind, M_bind, bind.
  rewrite getEntryPoint_unfold, (scanEntryPoint_none _ 0%nat H).
  destruct NDEBUG; reflexivity.
Qed.

Lemma setShaderStageToModule_none (m : Module) (s : ShaderStage) :
  scanEntryPoint (functions m) 0 = None ->
  setShaderStageToModule s m = (if NDEBUG then Undefined else Abort, m).
Proof.
  intros H. unfold setShaderStageToModule, mbind, M_bind, bind.
  rewrite getEntryPoint_unfold, H.
  destruct NDEBUG; reflexivity.
Qed.

(** X3. Without a function that has a body and external linkage,
    [setShaderStageToModule] attaches nothing: it aborts with
    assertions, or without them dereferences the null entry point, and
    the module is left as it was. *)
Theorem setShaderStageToModule_no_entry (m : Module) (s : ShaderStage) :
  noEntryPoint m ->
  setShaderStageToModule s m = (if NDEBUG then Undefined else Abort, m).
Proof.
  intros H. apply setShaderStageToModule_none.
  apply (scanEntryPoint_none _ 0%nat H).
Qed.

Lemma setShaderStageToModule_found (m : Module) (i : nat) (s : ShaderStage) :
  scanEntryPoint (functions m) 0 = Some i ->
  exists f,
    functions m !! i = Some f /\
    setShaderStageToModule s m =
    (Ret tt,
     mkModule
       (<[i := mkFunction (name f) (blocks f) (linkage f)
                 (<[gSPIRVMD_ExecutionModel :=
                      [Some (ConstantAsMetadata
                               (ConstantInt
                                  (mkAPInt 32 (convertToExecModel s mod 2 ^ 32))))]]>
                    (attachments f))]>
          (functions m))) /\
    scanEntryPoint
      (<[i := mkFunction (name f) (blocks f) (linkage f)
                (<[gSPIRVMD_ExecutionModel :=
                     [Some (ConstantAsMetadata
                              (ConstantInt
                                 (mkAPInt 32 (convertToExecModel s mod 2 ^ 32))))]]>
                   (attachments f))]>
         (functions m)) 0 = Some i.
Proof.
  intros Hs. destruct (scanEntryPoint_lookup _ _ _ Hs) as [_ (f & Hf & _)].
  rewrite Nat.sub_0_r in Hf. exists f. split; [exact Hf|].
  split; [apply (setShaderStageToModule_at m i f s Hs Hf)|].
  rewrite (scanEntryPoint_insert _ _ _ f) by (exact Hf || reflexivity).
  exact Hs.
Qed.

(** X4. Frame of [setShaderStageToModule]: the function list keeps its
    length, every function other than the entry function is untouched,
    and the entry function keeps its name, body, linkage and every
    attachment of another kind; under the execution-model key it
    carries a one-operand node over the 32-bit constant holding the low
    32 bits of the stage's code. *)
Theorem setShaderStageToModule_frame (m : Module) (s : ShaderStage)
    (i : nat) (f : Function) :
  fst (getEntryPoint m) = Ret (Some i) ->
  functions m !! i = Some f ->
  fst (setShaderStageToModule s m) = Ret tt /\
  length (functions (snd (setShaderStageToModule s m)))
  = length (functions m) /\
  (forall j, j <> i ->
     functions (snd (setShaderStageToModule s m)) !! j = functions m !! j) /\
  exists f',
    functions (snd (setShaderStageToModule s m)) !! i = Some f' /\
    name f' = name f /\ blocks f' = blocks f /\ linkage f' = linkage f /\
    (forall kind, kind <> gSPIRVMD_ExecutionModel ->
       attachments f' !! kind = attachments f !! kind) /\
    attachments f' !! gSPIRVMD_ExecutionModel
    = Some [Some (ConstantAsMetadata
                    (ConstantInt
                       (mkAPInt 32 (convertToExecModel s mod 2 ^ 32))))].
Proof.
  intros He Hf. apply getEntryPoint_Some_inv in He.
  rewrite (setShaderStageToModule_at m i f s He Hf). simpl.
  split; [reflexivity|]. split; [apply length_insert|].
  split; [intros j Hj; now apply list_lookup_insert_ne|].
  eexists. split.
  { apply list_lookup_insert_eq. eapply lookup_lt_Some, Hf. }
  simpl. repeat (split; [reflexivity|]). split.
  - intros kind Hk. now apply lookup_insert_ne.
  - apply lookup_insert_eq.
Qed.

(** X5. The last write wins: setting a stage and then another one
    leaves exactly the module that setting the second one alone
    leaves. *)
Theorem setShaderStageToModule_overwrites (m : Module) (s1 s2 : ShaderStage) :
  (exists f, f ∈ functions m /\ definedExternal f) ->
  (setShaderStageToModule s1;; setShaderStageToModule s2) m
  = setShaderStageToModule s2 m.
Proof.
  intros Hex.
  destruct (setShaderStageToModule_effect m s1 Hex)
    as (i & f & m' & Hset & Hs & Hf & Hs' & Hf' & Hm').
  unfold mbind, M_bind, bind. rewrite Hset.
  rewrite (setShaderStageToModule_at m' i _ s2 Hs' Hf'). simpl.
  rewrite (setShaderStageToModule_at m i f s2 Hs Hf).
  now rewrite insert_insert_eq, Hm', list_insert_insert_eq.
Qed.

(** X6. [setShaderStageToModule] never moves the entry point: whatever
    its outcome, [getEntryPoint] on the module it leaves gives what it
    gave before the call. *)
Theorem setShaderStageToModule_keeps_entry (m : Module) (s : ShaderStage) :
  fst (getEntryPoint (snd (setShaderStageToModule s m)))
  = fst (getEntryPoint m).
Proof.
  destruct (scanEntryPoint (functions m) 0) as [i|] eqn:E.
  - destruct (setShaderStageToModule_found m i s E) as (f & _ & Hset & Hs').
    rewrite Hset, !getEntryPoint_unfold. simpl. now rewrite Hs', E.
  - rewrite (setShaderStageToModule_none m s E). reflexivity.
Qed.

(** X7. What is read back after a write, with no assumption on the
    conversions: [getShaderStageFromModule] after
    [setShaderStageToModule s] returns [convertToShaderStage] of the low
    32 bits of [convertToExecModel s], the width of the stored
    constant. *)
Theorem shaderStage_read_back (m : Module) (s : ShaderStage) :
  (exists f, f ∈ functions m /\ definedExternal f) ->
  fst ((setShaderStageToModule s;; getShaderStageFromModule) m)
  = Ret (convertToShaderStage (convertToExecModel s mod 2 ^ 32)).
Proof.
  intros Hex.
  destruct (setShaderStageToModule_effect m s Hex)
    as (i & f & m' & Hset & _ & _ & Hs' & Hf' & _).
  unfold mbind, M_bind, bind. rewrite Hset.
  rewrite (getShaderStageFromModule_at m' i _ Hs' Hf'). simpl.
  rewrite lookup_insert_eq.
  rewrite decode_integer_constant with
    (v := mkAPInt 32 (convertToExecModel s mod 2 ^ 32));
    [reflexivity|reflexivity|left; simpl; lia].
Qed.

(** X8. The failure branch of the unchecked extraction: when operand 0
    of the attached execution-model node is metadata other than a
    wrapped integer constant (a string, a nested tuple, a wrapped
    constant of another kind), [dyn_extract] yields null and the call
    dereferences it, with or without assertions; the module is
    unchanged. *)
Theorem getShaderStageFromModule_not_integer (m : Module) (i : nat)
    (f : Function) (node : MDNode) (md : Metadata) :
  fst (getEntryPoint m) = Ret (Some i) ->
  functions m !! i = Some f ->
  attachments f !! gSPIRVMD_ExecutionModel = Some node ->
  node !! 0%nat = Some (Some md) ->
  (forall v, md <> ConstantAsMetadata (ConstantInt v)) ->
  getShaderStageFromModule m = (Undefined, m).
Proof.
  intros He Hf Hmd Hop Hni. apply getEntryPoint_Some_inv in He.
  rewrite (getShaderStageFromModule_at m i f He Hf), Hmd.
  unfold MDNode_getOperand, mbind, M_bind, bind. rewrite Hop. simpl.
  destruct md as [[v| | |]| |]; try reflexivity.
  exfalso. now apply (Hni v).
Qed.

(** X9. An attached execution-model node without a usable operand 0 (an
    empty tuple, or a null operand) makes the call abort in a library
    assertion, or fault without assertions; the module is unchanged. *)
Theorem getShaderStageFromModule_no_operand (m : Module) (i : nat)
    (f : Function) (node : MDNode) :
  fst (getEntryPoint m) = Ret (Some i) ->
  functions m !! i = Some f ->
  attachments f !! gSPIRVMD_ExecutionModel = Some node ->
  node !! 0%nat = None \/ node !! 0%nat = Some None ->
  getShaderStageFromModule m = (if NDEBUG then Undefined else Abort, m).
Proof.
  intros He Hf Hmd Hop. apply getEntryPoint_Some_inv in He.
  rewrite (getShaderStageFromModule_at m i f He Hf), Hmd.
  unfold MDNode_getOperand, mbind, M_bind, bind.
  destruct Hop as [-> | ->]; simpl; unfold llvm_unreachable;
    destruct NDEBUG; reflexivity.
Qed.

Lemma decode_outcome (node : MDNode) (m m' : Module) :
  fst ((op ← MDNode_getOperand node 0;
        ci ← dyn_extract_ConstantInt op;
        execModel ← ConstantInt_getZExtValue ci;
        ret (convertToShaderStage execModel)) m)
  = fst ((op ← MDNode_getOperand node 0;
          ci ← dyn_extract_ConstantInt op;
          execModel ← ConstantInt_getZExtValue ci;
          ret (convertToShaderStage execModel)) m').
Proof.
  unfold MDNode_getOperand, mbind, M_bind, bind, llvm_unreachable.
  destruct (node !! 0%nat) as [[[[v| | |]| |]|]|]; simpl;
    try reflexivity;
    try (unfold llvm_unreachable; destruct NDEBUG; reflexivity).
  unfold assert, bind.
  destruct (BitWidth v <=? 64)%N, NDEBUG, (UVal v <? 2 ^ 64); reflexivity.
Qed.

(** X10. The stage read from a module depends only on the
    execution-model attachment of its entry function: two modules whose
    entry functions carry the same attachment under that key (or none)
    give the same outcome, whatever else the modules and the other
    functions carry. *)
Theorem getShaderStageFromModule_entry_only (m m' : Module) (i i' : nat)
    (f f' : Function) :
  fst (getEntryPoint m) = Ret (Some i) ->
  functions m !! i = Some f ->
  fst (getEntryPoint m') = Ret (Some i') ->
  functions m' !! i' = Some f' ->
  attachments f !! gSPIRVMD_ExecutionModel
  = attachments f' !! gSPIRVMD_ExecutionModel ->
  fst (getShaderStageFromModule m) = fst (getShaderStageFromModule m').
Proof.
  intros He Hf He' Hf' Hmd.
  apply getEntryPoint_Some_inv in He. apply getEntryPoint_Some_inv in He'.
  rewrite (getShaderStageFromModule_at m i f He Hf),
          (getShaderStageFromModule_at m' i' f' He' Hf'), Hmd.
  destruct (attachments f' !! gSPIRVMD_ExecutionModel) as [node|];
    [apply decode_outcome | reflexivity].
Qed.

(* ===================================================================== *)
(** ** Further properties of the zero indices *)
(* ===================================================================== *)

Lemma chainLength_Some (t t' : llvmType) :
  unwrapType t = Some t' -> chainLength t = S (chainLength t').
Proof.
  destruct t as [ | | | | | n | n | i p [|x xs] | e n | e n s ]; simpl;
    intros H; inversion H; reflexivity.
Qed.

Lemma chainLength_None (t : llvmType) :
  unwrapType t = None -> chainLength t = 0%nat.
Proof.
  destruct t as [ | | | | | n | n | i p [|x xs] | e n | e n s ]; simpl;
    intros H; try discriminate; reflexivity.
Qed.

Lemma unwrapTimes_add (k1 k2 : nat) (a b : llvmType) :
  unwrapTimes k1 a = Some b ->
  unwrapTimes (k1 + k2) a = unwrapTimes k2 b.
Proof.
  revert a. induction k1 as [|k1 IH]; intros a H; simpl in *.
  - now inversion H.
  - destruct (unwrapType a) as [a'|]; [now apply IH | discriminate].
Qed.

(** A normal return of the loop means that the target lies on the
    cursor's chain. *)
Lemma unpackLoop_returns_inv (zero : Value) (typeToMatch t : llvmType) :
  forall ops,
    fst (unpackLoop zero typeToMatch t ops) = Ret tt ->
    exists k, unwrapTimes k t = Some typeToMatch /\
              (k <= chainLength t)%nat /\
              snd (unpackLoop zero typeToMatch t ops) = ops ++ replicate k zero.
Proof.
  induction t as [t IH] using unwrap_induction. intros ops.
  rewrite unpackLoop_step. destruct (Type_eqb t typeToMatch) eqn:E.
  - intros _. apply Type_eqb_eq in E. subst. exists 0%nat. simpl.
    split; [reflexivity|]. split; [lia|]. now rewrite app_nil_r.
  - destruct (unwrapType t) as [t'|] eqn:U.
    + intros H. destruct (IH t' eq_refl _ H) as (k & Hk & Hle & Hs).
      exists (S k). simpl. rewrite U, (chainLength_Some _ _ U).
      split; [exact Hk|]. split; [lia|].
      rewrite Hs, <- app_assoc. reflexivity.
    + unfold llvm_unreachable. destruct NDEBUG; simpl; discriminate.
Qed.

(** The loop on a chain that never meets the target.  Paired with
    [Undefined], the list is the one at the point where the undefined
    behaviour is reached; nothing is said about what follows it. *)
Lemma unpackLoop_off_chain (zero : Value) (typeToMatch t : llvmType) :
  (forall k, unwrapTimes k t <> Some typeToMatch) ->
  forall ops,
    unpackLoop zero typeToMatch t ops
    = (if NDEBUG then Undefined else Abort,
       ops ++ replicate (S (chainLength t)) zero).
Proof.
  induction t as [t IH] using unwrap_induction. intros Hoff ops.
  rewrite unpackLoop_step, Type_eqb_neq
    by (intros ->; now apply (Hoff 0%nat)).
  destruct (unwrapType t) as [t'|] eqn:U.
  - rewrite (IH t' eq_refl), (chainLength_Some _ _ U).
    + now rewrite <- app_assoc.
    + intros k Hk. apply (Hoff (S k)). simpl. now rewrite U.
  - rewrite (chainLength_None _ U). unfold llvm_unreachable.
    destruct NDEBUG; reflexivity.
Qed.

(** X11. A normal return certifies the match: when
    [appendZeroIndexToMatchTypes] returns, [typeToMatch] is reached from
    [packType] by some [k] unwrap steps, [k] is at most the length of
    the first-element chain of [packType], and exactly [k] zero indices
    were appended. *)
Theorem appendZeroIndexToMatchTypes_returns_inv
    (typeToMatch packType : llvmType) (ops : list Value) :
  fst (appendZeroIndexToMatchTypes typeToMatch packType ops) = Ret tt ->
  exists k,
    unwrapTimes k packType = Some typeToMatch /\
    (k <= chainLength packType)%nat /\
    snd (appendZeroIndexToMatchTypes typeToMatch packType ops)
    = ops ++ replicate k (ConstantValue (ConstantInt (mkAPInt 32 0))).
Proof.
  unfold appendZeroIndexToMatchTypes. intros H.
  destruct (unpackLoop_returns_inv _ _ _ _ H) as (k & Hk & Hle & Hs).
  exists k. split; [exact Hk|]. split; [exact Hle|]. rewrite Hs. reflexivity.
Qed.

(** X12. In a build with assertions, when [typeToMatch] is not on the
    first-element chain of [packType], the call aborts: the cursor runs
    down the whole chain and then hits the unreachable marker (or the
    range assertion of a memberless struct).  The list is not rolled
    back: at the abort it has grown by one zero index per chain type,
    the last one included. *)
Theorem appendZeroIndexToMatchTypes_off_chain
    (typeToMatch packType : llvmType) (ops : list Value) :
  NDEBUG = false ->
  (forall k, unwrapTimes k packType <> Some typeToMatch) ->
  appendZeroIndexToMatchTypes typeToMatch packType ops
  = (Abort,
     ops ++ replicate (S (chainLength packType))
              (ConstantValue (ConstantInt (mkAPInt 32 0)))).
Proof.
  unfold appendZeroIndexToMatchTypes. intros Hdbg H.
  rewrite (unpackLoop_off_chain _ _ _ H), Hdbg. reflexivity.
Qed.

(** X13. Calls compose along the chain: padding from [a] down to [b]
    and then from [b] down to [c] leaves the list that padding from [a]
    down to [c] in one call leaves. *)
Theorem appendZeroIndexToMatchTypes_compose (a b c : llvmType)
    (k1 k2 : nat) (ops : list Value) :
  unwrapTimes k1 a = Some b ->
  unwrapTimes k2 b = Some c ->
  (appendZeroIndexToMatchTypes b a;; appendZeroIndexToMatchTypes c b) ops
  = appendZeroIndexToMatchTypes c a ops.
Proof.
  intros H1 H2. unfold appendZeroIndexToMatchTypes, mbind, M_bind, bind.
  rewrite (unpackLoop_reaches _ _ k1 _ _ H1), (unpackLoop_reaches _ _ k2 _ _ H2).
  rewrite (unpackLoop_reaches _ c (k1 + k2) a).
  - now rewrite replicate_add, app_assoc.
  - now rewrite (unwrapTimes_add k1 k2 a b H1).
Qed.

(** X14. Only the first-element chain matters: two source types with
    the same unwrap step behave alike against any target different from
    both, so further struct members, array lengths and vector lengths do
    not influence the padding. *)
Theorem appendZeroIndexToMatchTypes_first_element_only
    (typeToMatch p q : llvmType) (ops : list Value) :
  unwrapType p = unwrapType q ->
  p <> typeToMatch -> q <> typeToMatch ->
  appendZeroIndexToMatchTypes typeToMatch p ops
  = appendZeroIndexToMatchTypes typeToMatch q ops.
Proof.
  intros Hu Hp Hq. unfold appendZeroIndexToMatchTypes.
  rewrite (unpackLoop_step _ _ p), (unpackLoop_step _ _ q).
  now rewrite (Type_eqb_neq _ _ Hp), (Type_eqb_neq _ _ Hq), Hu.
Qed.

End Lowering.

(* ===================================================================== *)
(** ** Violated preconditions *)
(* ===================================================================== *)

(** C5, amended. In a build with assertions (NDEBUG not defined) both
    violations terminate the process: [getEntryPoint] on a module
    without a defined external function, and
    [appendZeroIndexToMatchTypes] when the cursor reaches a type that is
    no struct, array or vector without having met the target.  In a
    build without assertions [getEntryPoint] returns the null pointer
    instead. *)
Theorem precondition_violations_with_assertions :
  (forall m, noEntryPoint m -> getEntryPoint false m = (Abort, m)) /\
  (forall typeToMatch packType k ops,
      reachesNonAggregate typeToMatch packType k ->
      fst (appendZeroIndexToMatchTypes false typeToMatch packType ops) = Abort) /\
  (forall m, noEntryPoint m -> getEntryPoint true m = (Ret None, m)).
Proof.
  split; [|split].
  - intros m H. rewrite getEntryPoint_unfold.
    now rewrite (scanEntryPoint_none _ 0%nat H).
  - intros typeToMatch packType k ops H. unfold appendZeroIndexToMatchTypes.
    now rewrite (unpackLoop_stuck false _ _ k _ _ H).
  - intros m H. rewrite getEntryPoint_unfold.
    now rewrite (scanEntryPoint_none _ 0%nat H).
Qed.

(* ===================================================================== *)
(** ** The theorems on the sample units *)
(* ===================================================================== *)

Import SpirvInterface Examples.

Lemma main_definedExternal : definedExternal main.
Proof. split; [discriminate | reflexivity]. Defined.

Lemma taggedMain_definedExternal (c : Constant) : definedExternal (taggedMain c).
Proof. split; [discriminate | reflexivity]. Defined.

Lemma helper_not_definedExternal : ~ definedExternal helper.
Proof. intros [_ H]. discriminate H. Defined.

Lemma decl_not_definedExternal : ~ definedExternal decl.
Proof. intros [H _]. apply H. reflexivity. Defined.

Lemma noEntryUnit_noEntryPoint : noEntryPoint noEntryUnit.
Proof.
  intros f Hf. apply list_elem_of_In in Hf.
  destruct Hf as [<- | [<- | []]];
    [apply helper_not_definedExternal | apply decl_not_definedExternal].
Defined.

(** The sample conversions are inverse to each other on the valid
    stages. *)
Lemma convert_inverse (s : ShaderStage) :
  s <> ShaderStageInvalid -> convertToShaderStage (convertToExecModel s) = s.
Proof. intros _. destruct s; reflexivity. Defined.

(** The sample codes are 32-bit codes. *)
Lemma convertToExecModel_range (s : ShaderStage) :
  s <> ShaderStageInvalid -> 0 <= convertToExecModel s < 2 ^ 32.
Proof. intros _. destruct s; simpl; lia. Defined.

(** The scenario of the specification: [helper] before [main], and
    [main] between other functions. *)
Lemma getEntryPoint_first_defined_external_witness :
  getEntryPoint false mixedUnit = (Ret (Some 2%nat), mixedUnit) /\
  functions mixedUnit !! 2%nat = Some main.
Proof.
  assert (Hex : exists f, f ∈ functions mixedUnit /\ definedExternal f).
  { exists main. split; [|exact main_definedExternal].
    apply list_elem_of_In. simpl. auto. }
  destruct (getEntryPoint_first_defined_external false mixedUnit Hex) as [_ H].
  apply (H [decl; helper] main [helper; decl]).
  - reflexivity.
  - exact main_definedExternal.
  - repeat constructor;
      [exact decl_not_definedExternal | exact helper_not_definedExternal].
  - repeat constructor;
      [exact helper_not_definedExternal | exact decl_not_definedExternal].
Defined.

Lemma appendZeroIndexToMatchTypes_count_witness :
  unwrapTimes 2 packedFloats = Some FloatTy /\
  fst (appendZeroIndexToMatchTypes false FloatTy packedFloats []) = Ret tt /\
  length (snd (appendZeroIndexToMatchTypes false FloatTy packedFloats []))
  = (length (@nil Value) + 2)%nat /\
  take (length (@nil Value))
    (snd (appendZeroIndexToMatchTypes false FloatTy packedFloats [])) = [].
Proof.
  split; [reflexivity|].
  destruct (appendZeroIndexToMatchTypes_count false) as [H _].
  apply (H 2%nat FloatTy packedFloats []). reflexivity.
Defined.

Lemma shaderStage_round_trip_witness :
  fst ((setShaderStageToModule false ShaderStage convertToExecModel
          ExecutionModel ShaderStageMesh;;
        getShaderStageFromModule false ShaderStage ShaderStageInvalid
          convertToShaderStage ExecutionModel) scenarioUnit)
  = Ret ShaderStageMesh.
Proof.
  apply shaderStage_round_trip.
  - exists main. split; [|exact main_definedExternal].
    apply list_elem_of_In. simpl. auto.
  - discriminate.
  - exact convert_inverse.
  - exact convertToExecModel_range.
Defined.

Lemma getShaderStageFromModule_untagged_witness :
  getShaderStageFromModule false ShaderStage ShaderStageInvalid
    convertToShaderStage ExecutionModel scenarioUnit
  = (Ret ShaderStageInvalid, scenarioUnit).
Proof.
  apply (getShaderStageFromModule_untagged false ShaderStage ShaderStageInvalid
           convertToShaderStage ExecutionModel scenarioUnit 1%nat main);
    reflexivity.
Defined.

Lemma setShaderStageToModule_idempotent_witness :
  (setShaderStageToModule false ShaderStage convertToExecModel ExecutionModel
     ShaderStageCompute;;
   setShaderStageToModule false ShaderStage convertToExecModel ExecutionModel
     ShaderStageCompute) scenarioUnit
  = setShaderStageToModule false ShaderStage convertToExecModel ExecutionModel
      ShaderStageCompute scenarioUnit /\
  fst (setShaderStageToModule false ShaderStage convertToExecModel
         ExecutionModel ShaderStageCompute scenarioUnit) = Ret tt.
Proof.
  destruct (setShaderStageToModule_idempotent false ShaderStage
              convertToExecModel ExecutionModel scenarioUnit
              ShaderStageCompute) as (Htwice & Hret & _).
  - exists main. split; [|exact main_definedExternal].
    apply list_elem_of_In. simpl. auto.
  - split; [exact Htwice | exact Hret].
Defined.

Lemma getShaderStageFromModule_decodes_witness :
  getShaderStageFromModule false ShaderStage ShaderStageInvalid
    convertToShaderStage ExecutionModel fragmentUnit
  = (Ret ShaderStageFragment, fragmentUnit).
Proof.
  apply (getShaderStageFromModule_decodes false ShaderStage ShaderStageInvalid
           convertToShaderStage ExecutionModel fragmentUnit 1%nat
           (taggedMain (ConstantInt (mkAPInt 32 4)))
           [Some (ConstantAsMetadata (ConstantInt (mkAPInt 32 4)))]
           (mkAPInt 32 4)).
  - reflexivity.
  - reflexivity.
  - reflexivity.
  - reflexivity.
  - left. simpl. lia.
Defined.

Lemma precondition_violations_with_assertions_witness :
  getEntryPoint false noEntryUnit = (Abort, noEntryUnit) /\
  fst (appendZeroIndexToMatchTypes false DoubleTy packedFloats []) = Abort /\
  getEntryPoint true noEntryUnit = (Ret None, noEntryUnit).
Proof.
  destruct precondition_violations_with_assertions as (Hentry & Hloop & Hnull).
  split; [|split].
  - apply Hentry. exact noEntryUnit_noEntryPoint.
  - apply (Hloop DoubleTy packedFloats 2%nat []).
    exists FloatTy. repeat (split; [reflexivity|]).
    intros j t' Hj Ht'.
    destruct j as [|[|[|j]]]; try lia; inversion Ht'; subst t'; discriminate.
  - apply Hnull. exact noEntryUnit_noEntryPoint.
Defined.

(** C5 as stated fails in a build without assertions: on a module with
    no defined external function [getEntryPoint] returns normally, with
    the null pointer as its result. *)
Lemma getEntryPoint_returns_null_without_assertions :
  noEntryPoint noEntryUnit /\
  getEntryPoint true noEntryUnit = (Ret None, noEntryUnit) /\
  ~ (forall NDEBUG m, noEntryPoint m -> fst (getEntryPoint NDEBUG m) = Abort).
Proof.
  split; [exact noEntryUnit_noEntryPoint|]. split; [reflexivity|].
  intros H. specialize (H true noEntryUnit noEntryUnit_noEntryPoint).
  discriminate H.
Qed.

(** C10 as stated fails for a constant wider than 64 bits: the entry
    function of [wideUnit] carries an execution-model node whose operand
    0 is the integer constant [2 ^ 64] of width 128, and the call
    aborts in [getZExtValue]; without assertions it returns the stage of
    the low 64 bits, not that of the value. *)
Lemma getShaderStageFromModule_wide_constant :
  fst (getEntryPoint false wideUnit) = Ret (Some 0%nat) /\
  functions wideUnit !! 0%nat
  = Some (taggedMain (ConstantInt (mkAPInt 128 (2 ^ 64)))) /\
  attachments (taggedMain (ConstantInt (mkAPInt 128 (2 ^ 64)))) !! ExecutionModel
  = Some [Some (ConstantAsMetadata (ConstantInt (mkAPInt 128 (2 ^ 64))))] /\
  fst (getShaderStageFromModule false ShaderStage ShaderStageInvalid
         convertToShaderStage ExecutionModel wideUnit) = Abort /\
  fst (getShaderStageFromModule true ShaderStage ShaderStageInvalid
         convertToShaderStage ExecutionModel wideUnit) = Ret ShaderStageVertex /\
  convertToShaderStage (2 ^ 64) = ShaderStageInvalid.
Proof. repeat split; vm_compute; reflexivity. Qed.

(* ===================================================================== *)
(** ** The further properties on the sample units *)
(* ===================================================================== *)

Lemma scenarioUnit_has_entry :
  exists f, f ∈ functions scenarioUnit /\ definedExternal f.
Proof.
  exists main. split; [|exact main_definedExternal].
  apply list_elem_of_In. simpl. auto.
Defined.

Lemma getShaderStageFromModule_no_entry_witness :
  getShaderStageFromModule false ShaderStage ShaderStageInvalid
    convertToShaderStage ExecutionModel noEntryUnit
  = (Abort, noEntryUnit).
Proof.
  apply (getShaderStageFromModule_no_entry false).
  exact noEntryUnit_noEntryPoint.
Defined.

Lemma setShaderStageToModule_no_entry_witness :
  setShaderStageToModule true ShaderStage convertToExecModel ExecutionModel
    ShaderStageVertex noEntryUnit
  = (Undefined, noEntryUnit).
Proof.
  apply (setShaderStageToModule_no_entry true).
  exact noEntryUnit_noEntryPoint.
Defined.

Lemma setShaderStageToModule_frame_witness :
  length (functions
            (snd (setShaderStageToModule false ShaderStage convertToExecModel
                    ExecutionModel ShaderStageGeometry fragmentUnit)))
  = length (functions fragmentUnit) /\
  functions
    (snd (setShaderStageToModule false ShaderStage convertToExecModel
            ExecutionModel ShaderStageGeometry fragmentUnit)) !! 0%nat
  = Some helper.
Proof.
  destruct (setShaderStageToModule_frame false ShaderStage convertToExecModel
              ExecutionModel fragmentUnit ShaderStageGeometry 1%nat
              (taggedMain (ConstantInt (mkAPInt 32 4))))
    as (_ & Hlen & Hother & _); [reflexivity | reflexivity |].
  split; [exact Hlen|].
  rewrite (Hother 0%nat) by discriminate. reflexivity.
Defined.

Lemma setShaderStageToModule_overwrites_witness :
  (setShaderStageToModule false ShaderStage convertToExecModel ExecutionModel
     ShaderStageVertex;;
   setShaderStageToModule false ShaderStage convertToExecModel ExecutionModel
     ShaderStageFragment) scenarioUnit
  = setShaderStageToModule false ShaderStage convertToExecModel ExecutionModel
      ShaderStageFragment scenarioUnit.
Proof.
  apply setShaderStageToModule_overwrites. exact scenarioUnit_has_entry.
Defined.

Lemma shaderStage_read_back_witness :
  fst ((setShaderStageToModule false ShaderStage convertToExecModel
          ExecutionModel ShaderStageInvalid;;
        getShaderStageFromModule false ShaderStage ShaderStageInvalid
          convertToShaderStage ExecutionModel) scenarioUnit)
  = Ret (convertToShaderStage (convertToExecModel ShaderStageInvalid mod 2 ^ 32)).
Proof.
  apply shaderStage_read_back. exact scenarioUnit_has_entry.
Defined.

Lemma getShaderStageFromModule_not_integer_witness :
  getShaderStageFromModule false ShaderStage ShaderStageInvalid
    convertToShaderStage ExecutionModel
    (mkModule [taggedMain (ConstantFP (mkAPInt 32 0))])
  = (Undefined, mkModule [taggedMain (ConstantFP (mkAPInt 32 0))]).
Proof.
  apply (getShaderStageFromModule_not_integer false ShaderStage
           ShaderStageInvalid convertToShaderStage ExecutionModel _ 0%nat
           (taggedMain (ConstantFP (mkAPInt 32 0)))
           [Some (ConstantAsMetadata (ConstantFP (mkAPInt 32 0)))]
           (ConstantAsMetadata (ConstantFP (mkAPInt 32 0))));
    try reflexivity.
  intros v H. discriminate H.
Defined.

Lemma getShaderStageFromModule_no_operand_witness :
  getShaderStageFromModule false ShaderStage ShaderStageInvalid
    convertToShaderStage ExecutionModel
    (mkModule [mkFunction "main" [mkBasicBlock "entry"] ExternalLinkage
                 {[ ExecutionModel := [] ]}])
  = (Abort,
     mkModule [mkFunction "main" [mkBasicBlock "entry"] ExternalLinkage
                 {[ ExecutionModel := [] ]}]).
Proof.
  apply (getShaderStageFromModule_no_operand false ShaderStage
           ShaderStageInvalid convertToShaderStage ExecutionModel _ 0%nat
           (mkFunction "main" [mkBasicBlock "entry"] ExternalLinkage
              {[ ExecutionModel := [] ]})
           []);
    try reflexivity.
  left. reflexivity.
Defined.

Lemma getShaderStageFromModule_entry_only_witness :
  fst (getShaderStageFromModule false ShaderStage ShaderStageInvalid
         convertToShaderStage ExecutionModel fragmentUnit)
  = fst (getShaderStageFromModule false ShaderStage ShaderStageInvalid
           convertToShaderStage ExecutionModel
           (mkModule [decl; taggedMain (ConstantInt (mkAPInt 32 4)); helper])).
Proof.
  apply (getShaderStageFromModule_entry_only false ShaderStage
           ShaderStageInvalid convertToShaderStage ExecutionModel
           fragmentUnit _ 1%nat 1%nat
           (taggedMain (ConstantInt (mkAPInt 32 4)))
           (taggedMain (ConstantInt (mkAPInt 32 4))));
    reflexivity.
Defined.

Lemma appendZeroIndexToMatchTypes_returns_inv_witness :
  exists k,
    unwrapTimes k packedFloats = Some (ArrayTy FloatTy 4) /\
    (k <= chainLength packedFloats)%nat /\
    snd (appendZeroIndexToMatchTypes false (ArrayTy FloatTy 4) packedFloats [])
    = [] ++ replicate k (ConstantValue (ConstantInt (mkAPInt 32 0))).
Proof.
  apply (appendZeroIndexToMatchTypes_returns_inv false). reflexivity.
Defined.

Lemma packedFloats_off_chain (k : nat) :
  unwrapTimes k packedFloats <> Some DoubleTy.
Proof. destruct k as [|[|[|k]]]; simpl; intros H; discriminate H. Defined.

Lemma appendZeroIndexToMatchTypes_off_chain_witness :
  appendZeroIndexToMatchTypes false DoubleTy packedFloats []
  = (Abort,
     [] ++ replicate (S (chainLength packedFloats))
             (ConstantValue (ConstantInt (mkAPInt 32 0)))).
Proof.
  apply (appendZeroIndexToMatchTypes_off_chain false);
    [reflexivity | exact packedFloats_off_chain].
Defined.

Lemma appendZeroIndexToMatchTypes_compose_witness :
  (appendZeroIndexToMatchTypes false (ArrayTy FloatTy 4) packedFloats;;
   appendZeroIndexToMatchTypes false FloatTy (ArrayTy FloatTy 4)) []
  = appendZeroIndexToMatchTypes false FloatTy packedFloats [].
Proof.
  apply (appendZeroIndexToMatchTypes_compose false packedFloats
           (ArrayTy FloatTy 4) FloatTy 1%nat 1%nat []);
    reflexivity.
Defined.

Lemma appendZeroIndexToMatchTypes_first_element_only_witness :
  appendZeroIndexToMatchTypes false FloatTy (ArrayTy (VectorTy FloatTy 4 false) 3) []
  = appendZeroIndexToMatchTypes false FloatTy
      (StructTy None false [VectorTy FloatTy 4 false; IntegerTy 32]) [].
Proof.
  apply (appendZeroIndexToMatchTypes_first_element_only false);
    [reflexivity | discriminate | discriminate].
Defined.
